(** * ruffyt: the dependency updater and the two-endpoint web service

    A shallow embedding of [src/ruffyt/__init__.py] and [src/ruffyt/app.py].

    - A Python [str] is a list of Unicode code points.
    - Code that can raise runs in the [result] monad; code that also reads
      or writes files and prints runs in the [M] monad over a [World].
    - [tomllib], [subprocess] and [json] are libraries outside the
      repository: what they return is supplied by an [Env]. *)

From stdpp Require Import gmap list sorting strings.
From Stdlib Require Import ZArith NArith Lia.

Set Warnings "-clear-no-such-hyp".

Local Open Scope list_scope.
Local Open Scope nat_scope.

(** ** Python strings *)

Abbreviation char := N (only parsing).
Abbreviation str := (list N) (only parsing).

(** [u "abc"] is the Python literal ["abc"]. *)
Definition u (s : string) : str :=
  Ascii.N_of_ascii <$> String.list_ascii_of_string s.

(** [Py_UNICODE_ISSPACE]: the characters removed by [str.strip()] and
    matched by [\s] in a [str] pattern. *)
Definition isspace (c : char) : bool :=
  ((9 <=? c) && (c <=? 13) || (28 <=? c) && (c <=? 32)
   || (c =? 133) || (c =? 160) || (c =? 5760)
   || (8192 <=? c) && (c <=? 8202)
   || (c =? 8232) || (c =? 8233) || (c =? 8239) || (c =? 8287)
   || (c =? 12288))%N.

Fixpoint lstrip (s : str) : str :=
  match s with
  | c :: s' => if isspace c then lstrip s' else s
  | [] => []
  end.

Definition rstrip (s : str) : str := reverse (lstrip (reverse s)).

(** [s.strip()] *)
Definition strip (s : str) : str := rstrip (lstrip s).

(** [s.startswith(p)] *)
Fixpoint startswith (p s : str) : bool :=
  match p, s with
  | [], _ => true
  | a :: p', b :: s' => (a =? b)%N && startswith p' s'
  | _ :: _, [] => false
  end.

(** [s.find(sub)], with [None] for Python's [-1]. *)
Fixpoint find (sub s : str) : option nat :=
  if startswith sub s then Some 0
  else match s with
       | [] => None
       | _ :: s' => S <$> find sub s'
       end.

(** [sub in s] *)
Definition contains (sub s : str) : bool :=
  match find sub s with Some _ => true | None => false end.

(** [sep.join(parts)] *)
Fixpoint join (sep : str) (parts : list str) : str :=
  match parts with
  | [] => []
  | [p] => p
  | p :: rest => p ++ sep ++ join sep rest
  end.

(** ** Exceptions *)

Inductive exn : Type :=
  | SystemExit (code : Z)
  | ValueError
  | IndexError
  | FileNotFoundError
  | TOMLDecodeError
  | CalledProcessError
  | JSONDecodeError.

Inductive result (A : Type) : Type :=
  | Ok (a : A)
  | Raise (e : exn).
Arguments Ok {A} a.
Arguments Raise {A} e.

Definition rbind {A B} (r : result A) (k : A → result B) : result B :=
  match r with
  | Ok a => k a
  | Raise e => Raise e
  end.

Notation "'let*' x := c 'in' k" := (rbind c (fun x => k))
  (at level 10, x name, c at level 100, k at level 200).

(** [s.split(sep, 1)]: at most one split, [ValueError] on an empty
    separator. *)
Definition split1 (sep s : str) : result (list str) :=
  match sep with
  | [] => Raise ValueError
  | _ :: _ =>
      match find sep s with
      | Some i => Ok [take i s; drop (i + length sep) s]
      | None => Ok [s]
      end
  end.

(** [xs[0]] *)
Definition item0 {A} (xs : list A) : result A :=
  match xs with
  | x :: _ => Ok x
  | [] => Raise IndexError
  end.

(** ** Stripping a declaration down to its name

    The same lines occur in [_get_direct_dependency_names] (40-48) and in
    [_update_pyproject_dependencies_block] (78-85). *)

(** [if sep in token: token = token.split(sep, 1)[0]] *)
Definition cut (sep token : str) : result str :=
  if contains sep token
  then let* parts := split1 sep token in item0 parts
  else Ok token.

Definition version_seps : list str :=
  [u "<"; u ">"; u "="; u "!"; u "~"; u " "].

(** [for sep in (...): if sep in token: token = token.split(sep, 1)[0]] *)
Fixpoint cut_each (seps : list str) (token : str) : result str :=
  match seps with
  | [] => Ok token
  | sep :: seps' => let* token' := cut sep token in cut_each seps' token'
  end.

Definition dep_name (dep : str) : result str :=
  let* token := cut (u "[") dep in
  let* token := cut_each version_seps token in
  Ok (strip token).

(** The loop of [_get_direct_dependency_names] over the parsed list. *)
Fixpoint collect_names (deps : list str) (names : gset str)
  : result (gset str) :=
  match deps with
  | [] => Ok names
  | dep :: deps' =>
      let* name := dep_name dep in
      collect_names deps' (if bool_decide (name = []) then names
                           else names ∪ {[ name ]})
  end.

Definition dependency_names (deps : list str) : result (gset str) :=
  collect_names deps ∅.

(** ** The dependencies-block pattern

    [re.compile(r"dependencies\s*=\s*\[(.*?)\]", re.DOTALL)].  At a fixed
    start the match is forced: the keyword, all the white space there is,
    [=], all the white space there is, [[], and then, [.*?] being lazy and
    [.] matching every character, the text up to the first []]. *)

Definition keyword : str := u "dependencies".
Definition c_eq : char := 61%N.
Definition c_lbracket : char := 91%N.
Definition c_rbracket : char := 93%N.

(** Length of the match that starts at the head of [t], if there is one. *)
Definition match_here (t : str) : option nat :=
  if startswith keyword t then
    match lstrip (drop (length keyword) t) with
    | c :: r =>
        if (c =? c_eq)%N then
          match lstrip r with
          | c' :: body =>
              if (c' =? c_lbracket)%N then
                match find [c_rbracket] body with
                | Some j => Some (length t - length body + j + 1)
                | None => None
                end
              else None
          | [] => None
          end
        else None
    | [] => None
    end
  else None.

Fixpoint search_from (i : nat) (t : str) : option (nat * nat) :=
  match match_here t with
  | Some n => Some (i, i + n)
  | None =>
      match t with
      | [] => None
      | _ :: t' => search_from (S i) t'
      end
  end.

(** [pattern.search(text)] followed by [match.span()]. *)
Definition pattern_search (text : str) : option (nat * nat) :=
  search_from 0 text.

(** ** The rebuilt block *)

Definition dquote : str := [34%N].
Definition newline : str := [10%N].

(** The loop of [_update_pyproject_dependencies_block] over the parsed
    list (lines 76-93). *)
Fixpoint update_deps (new_versions : gmap str str) (deps : list str)
  : result (list str) :=
  match deps with
  | [] => Ok []
  | dep :: deps' =>
      let* name := dep_name dep in
      let new_dep :=
        match new_versions !! name with
        | Some version => name ++ u "==" ++ version
        | None => dep
        end in
      let* updated_deps := update_deps new_versions deps' in
      Ok (new_dep :: updated_deps)
  end.

(** [f'    "{d}",'] *)
Definition dep_line (d : str) : str :=
  u "    " ++ dquote ++ d ++ dquote ++ u ",".

Definition new_block (updated_deps : list str) : str :=
  join newline ([u "dependencies = ["] ++ (dep_line <$> updated_deps) ++ [u "]"]).

(** ** The world: files, working directory, standard output *)

(** A resolved absolute path is the list of its components below [/]. *)
Abbreviation path := (list (list N)) (only parsing).

(** A file is held as the code points of its UTF-8 content, byte for
    byte; [linesep] is the platform's [os.linesep]. *)
Record World : Type := mkWorld {
  fs : gmap path str;
  cwd : path;
  stdout : list str;
  linesep : str;
}.

(** What a file opened for reading in text mode (universal newlines)
    delivers: every [\r\n] and every lone [\r] as [\n]. *)
Fixpoint universal_newlines (s : str) : str :=
  match s with
  | [] => []
  | c :: s' =>
      if (c =? 13)%N then
        10%N :: match s' with
                | c' :: s'' =>
                    if (c' =? 10)%N then universal_newlines s''
                    else universal_newlines s'
                | [] => []
                end
      else c :: universal_newlines s'
  end.

(** What a file opened for writing in text mode stores: every [\n] as the
    line separator [sep] of the platform. *)
Fixpoint os_newlines (sep : str) (s : str) : str :=
  match s with
  | [] => []
  | c :: s' =>
      (if (c =? 10)%N then sep else [c]) ++ os_newlines sep s'
  end.

Definition M (A : Type) : Type := World → World * result A.

Definition ret {A} (a : A) : M A := λ w, (w, Ok a).
Definition raise {A} (e : exn) : M A := λ w, (w, Raise e).
Definition bind {A B} (m : M A) (k : A → M B) : M B :=
  λ w, match m w with
       | (w', Ok a) => k a w'
       | (w', Raise e) => (w', Raise e)
       end.
Definition lift {A} (r : result A) : M A := λ w, (w, r).

Notation "'do' x := c 'in' k" := (bind c (fun x => k))
  (at level 10, x name, c at level 100, k at level 200).
Notation "c ';;' k" := (bind c (fun _ => k))
  (at level 100, k at level 200, right associativity).

Definition print (line : str) : M unit :=
  λ w, (mkWorld (fs w) (cwd w) (stdout w ++ [line]) (linesep w), Ok tt).
Definition getcwd : M path := λ w, (w, Ok (cwd w)).
Definition path_exists (p : path) : M bool :=
  λ w, (w, Ok (bool_decide (is_Some (fs w !! p)))).

(** [with path.open("rb") as f: ... f.read()]: the content as it is. *)
Definition read_binary (p : path) : M str :=
  λ w, match fs w !! p with
       | Some raw => (w, Ok raw)
       | None => (w, Raise FileNotFoundError)
       end.

(** [path.read_text(encoding="utf-8")]: text mode, universal newlines. *)
Definition read_text (p : path) : M str :=
  λ w, match fs w !! p with
       | Some raw => (w, Ok (universal_newlines raw))
       | None => (w, Raise FileNotFoundError)
       end.

(** [path.write_text(text, encoding="utf-8")]: text mode, [\n] written as
    the line separator of the platform; the file is taken to be
    writable. *)
Definition write_text (p : path) (text : str) : M unit :=
  λ w, (mkWorld (<[p := os_newlines (linesep w) text]> (fs w))
          (cwd w) (stdout w) (linesep w), Ok tt).

(** [path.parents]: nearest first, down to the root. *)
Definition parents (p : path) : list path :=
  (λ n, take n p) <$> reverse (seq 0 (length p)).

(** [str(path)] *)
Definition path_str (p : path) : str := u "/" ++ join (u "/") p.

(** The process exit status a run ends with: an uncaught exception other
    than [SystemExit] ends the interpreter with status 1. *)
Definition exit_code {A} (r : result A) : Z :=
  match r with
  | Ok _ => 0
  | Raise (SystemExit code) => code
  | Raise _ => 1
  end.

(** ** What the libraries return *)

(** An entry of [uv pip list --outdated --format json]. *)
Record Pkg : Type := mkPkg {
  pkg_name : str;
  pkg_version : str;
  pkg_latest_version : str;
}.

Record Env : Type := mkEnv {
  (** [tomllib.loads(text).get("project", {}).get("dependencies", [])];
      [tomllib.load(f)] is [tomllib.loads] of the decoded content of
      [f]. *)
  toml_dependencies : str → result (list str);
  (** [json.loads(subprocess.run([...], check=True).stdout)] *)
  uv_pip_list_outdated : result (list Pkg);
}.

(** ** [sorted] on strings *)

Fixpoint str_leb (a b : str) : bool :=
  match a, b with
  | [], _ => true
  | _ :: _, [] => false
  | x :: a', y :: b' =>
      if (x <? y)%N then true
      else if (x =? y)%N then str_leb a' b' else false
  end.

Definition sorted (l : list str) : list str :=
  merge_sort (λ a b, Is_true (str_leb a b)) l.

(** ** The functions of [ruffyt/__init__.py] *)

Definition manifest_name : str := u "pyproject.toml".

Fixpoint first_candidate (candidates : list path) : M (option path) :=
  match candidates with
  | [] => ret None
  | candidate_dir :: rest =>
      do found := path_exists (candidate_dir ++ [manifest_name]) in
      if found then ret (Some candidate_dir) else first_candidate rest
  end.

Definition _find_project_root : M path :=
  do p := getcwd in
  do r := first_candidate (p :: parents p) in
  match r with
  | Some candidate_dir => ret candidate_dir
  | None =>
      print (u "No pyproject.toml found upwards from current working directory.") ;;
      raise (SystemExit 1)
  end.

Section WithEnv.
Context (env : Env).

Definition _get_direct_dependency_names (pyproject_path : path)
  : M (gset str) :=
  do raw := read_binary pyproject_path in
  do deps := lift (toml_dependencies env raw) in
  lift (dependency_names deps).

Definition _update_pyproject_dependencies_block
    (pyproject_path : path) (new_versions : gmap str str) : M unit :=
  do text := read_text pyproject_path in
  match pattern_search text with
  | None =>
      print (u "Kein [project].dependencies Block in pyproject.toml gefunden.") ;;
      raise (SystemExit 1)
  | Some (start, end_) =>
      do deps := lift (toml_dependencies env text) in
      do updated_deps := lift (update_deps new_versions deps) in
      write_text pyproject_path
        (take start text ++ new_block updated_deps ++ drop end_ text)
  end.

(** [for pkg in to_update: print(...); new_versions[name] = latest] *)
Fixpoint collect_versions (to_update : list Pkg)
    (new_versions : gmap str str) : M (gmap str str) :=
  match to_update with
  | [] => ret new_versions
  | pkg :: rest =>
      print (pkg_name pkg ++ u ": " ++ pkg_version pkg ++ u " -> "
             ++ pkg_latest_version pkg) ;;
      collect_versions rest
        (<[pkg_name pkg := pkg_latest_version pkg]> new_versions)
  end.

Definition main : M unit :=
  do project_root := _find_project_root in
  let pyproject_path := project_root ++ [manifest_name] in
  do present := path_exists pyproject_path in
  if negb present then
    print (u "pyproject.toml nicht gefunden unter " ++ path_str pyproject_path) ;;
    raise (SystemExit 1)
  else
  do direct_deps := _get_direct_dependency_names pyproject_path in
  if bool_decide (direct_deps = ∅) then
    print (u "Keine direkten Dependencies in pyproject.toml gefunden.")
  else
  print (u "Direkte Dependencies: "
         ++ join (u ", ") (sorted (elements direct_deps))) ;;
  do outdated := lift (uv_pip_list_outdated env) in
  let to_update := filter (λ pkg, pkg_name pkg ∈ direct_deps) outdated in
  match to_update with
  | [] => print (u "Keine veralteten direkten Dependencies gefunden.")
  | _ :: _ =>
      do new_versions := collect_versions to_update ∅ in
      _update_pyproject_dependencies_block pyproject_path new_versions ;;
      print (u "pyproject.toml aktualisiert.") ;;
      print (u "Wenn du das Env anpassen willst, danach z. B.:") ;;
      print (u "  uv sync") ;;
      print (u "oder") ;;
      print (u "  uv lock --upgrade")
  end.
End WithEnv.

(** ** The web service of [ruffyt/app.py] *)

Record EchoRequest : Type := mkEchoRequest { message : str }.

(** [@app.get("/health")] *)
Definition health : gmap str str := {[ u "status" := u "ok" ]}.

(** [@app.post("/echo")] *)
Definition echo (payload : EchoRequest) : gmap str str :=
  {[ u "message" := message payload ]}.

Inductive method : Type := GET | POST.

Record Request : Type := mkRequest {
  req_method : method;
  req_path : str;
  (** the JSON object of the body, if any *)
  req_json : option (gmap str str);
}.

Record Response : Type := mkResponse {
  status_code : Z;
  json : gmap str str;
}.

(** A string can be sent as UTF-8 when it holds no surrogate code point
    (U+D800 to U+DFFF). *)
Definition utf8_encodable (s : str) : bool :=
  forallb (λ c, negb ((55296 <=? c) && (c <=? 57343))%N) s.

(** [{"detail": msg}], the body of the framework's own refusals. *)
Definition detail (msg : str) : gmap str str := {[ u "detail" := msg ]}.

(** The two routes registered on [app], as FastAPI serves them.
    - A handler that returns is answered with status 200 and the returned
      dict as JSON; when the dict cannot be encoded as UTF-8 the answer
      is 500, whose body is no JSON (here [∅]).
    - A body without the field of [EchoRequest] is refused with 422; the
      error report in its body is no object of strings and is left out
      (here [∅]).
    - A registered path under another method is refused with 405, a
      registered path with a slash appended is redirected with 307, any
      other path is refused with 404. *)
Definition app (r : Request) : Response :=
  if bool_decide (req_path r = u "/health") then
    match req_method r with
    | GET => mkResponse 200 health
    | POST => mkResponse 405 (detail (u "Method Not Allowed"))
    end
  else if bool_decide (req_path r = u "/echo") then
    match req_method r with
    | POST =>
        match req_json r ≫= (λ o, o !! u "message") with
        | Some m =>
            if utf8_encodable m
            then mkResponse 200 (echo (mkEchoRequest m))
            else mkResponse 500 ∅
        | None => mkResponse 422 ∅
        end
    | GET => mkResponse 405 (detail (u "Method Not Allowed"))
    end
  else if bool_decide (req_path r = u "/health/" ∨ req_path r = u "/echo/")
  then mkResponse 307 ∅
  else mkResponse 404 (detail (u "Not Found")).

(** The service holds no state: a sequence of requests is answered one
    by one. *)
Definition serve (requests : list Request) : list Response :=
  app <$> requests.

(** * Vocabulary of the properties *)

(** The prefix of [s] before the first character on which [stop] holds. *)
Fixpoint before (stop : char → bool) (s : str) : str :=
  match s with
  | [] => []
  | c :: s' => if stop c then [] else c :: before stop s'
  end.

(** The characters at which the code cuts a declaration: the bracket of
    line 42 and the separators of line 45, the space among them. *)
Definition is_sep (c : char) : bool := bool_decide (c ∈ u "[<>=!~ ").

(** The name the code gives a declaration: what precedes the first cut
    character, without surrounding white space. *)
Definition bare_name (dep : str) : str := strip (before is_sep dep).

(** The characters the spec names: the bracket that opens the extras and
    the characters of the version operators. *)
Definition is_operator (c : char) : bool := bool_decide (c ∈ u "[<>=!~").

(** The bare name of a declaration in the spec's words: the declaration
    without its extras and without everything from the first
    version-operator character on. *)
Definition spec_name (dep : str) : str := before is_operator dep.

(** A run of white space, as [\s*] matches it. *)
Definition spaces (ws : str) : Prop := Forall (λ c, isspace c = true) ws.

(** The strings the pattern matches as a whole. *)
Definition in_pattern (m : str) : Prop :=
  ∃ w1 w2 body,
    m = keyword ++ w1 ++ c_eq :: w2 ++ c_lbracket :: body ++ [c_rbracket]
    ∧ spaces w1 ∧ spaces w2.

(** [text[s:e]] *)
Definition slice (s e : nat) (text : str) : str := take (e - s) (drop s text).

(** What one declaration becomes. *)
Definition rewritten (new_versions : gmap str str) (dep : str) : str :=
  match new_versions !! bare_name dep with
  | Some version => bare_name dep ++ u "==" ++ version
  | None => dep
  end.

(** The world after [lines] were printed. *)
Definition printed (w : World) (lines : list str) : World :=
  mkWorld (fs w) (cwd w) (stdout w ++ lines) (linesep w).


(** The lines [main] and its helpers print. *)
Definition no_block_message : str :=
  u "Kein [project].dependencies Block in pyproject.toml gefunden.".

(** The first of [dirs] that holds a manifest. *)
Fixpoint first_with_manifest (files : gmap path str) (dirs : list path)
  : option path :=
  match dirs with
  | [] => None
  | d :: rest =>
      if bool_decide (is_Some (files !! (d ++ [manifest_name])))
      then Some d else first_with_manifest files rest
  end.

(** The directory the walk upward from the working directory stops at. *)
Definition project_root (w : World) : option path :=
  first_with_manifest (fs w) (cwd w :: parents (cwd w)).

Definition no_manifest_message : str :=
  u "No pyproject.toml found upwards from current working directory.".

Definition no_deps_message : str :=
  u "Keine direkten Dependencies in pyproject.toml gefunden.".
Definition none_outdated_message : str :=
  u "Keine veralteten direkten Dependencies gefunden.".
Definition direct_deps_line (names : gset str) : str :=
  u "Direkte Dependencies: " ++ join (u ", ") (sorted (elements names)).
Definition update_line (pkg : Pkg) : str :=
  pkg_name pkg ++ u ": " ++ pkg_version pkg ++ u " -> "
  ++ pkg_latest_version pkg.

(** The names [main] works with: those of the declarations [tomllib]
    reads from the text. *)
Definition names_of (deps : list str) : gset str :=
  list_to_set (filter (λ n, n ≠ []) (bare_name <$> deps)).

(** The update map [main] builds from the packages to update. *)
Definition versions_of (to_update : list Pkg) (new_versions : gmap str str)
  : gmap str str :=
  foldl (λ m pkg, <[pkg_name pkg := pkg_latest_version pkg]> m)
        new_versions to_update.



(** What [main] writes for the declaration [dep] when the listing is
    [outdated]: the pin to the latest version of the last entry listed
    under the name of [dep], or [dep] itself when its name is empty or not
    listed. *)
Definition pinned (outdated : list Pkg) (dep : str) : str :=
  if bool_decide (bare_name dep = []) then dep
  else
    match last (filter (λ pkg, pkg_name pkg = bare_name dep) outdated) with
    | Some pkg => bare_name dep ++ u "==" ++ pkg_latest_version pkg
    | None => dep
    end.

(** ** Concrete projects *)

Definition demo_dir : path := [u "home"; u "demo"].
Definition demo_manifest : path := demo_dir ++ [manifest_name].

(** A manifest whose first declaration has extras. *)
Definition extras_text : str := u "[project]
name = 'demo'
dependencies = [
    'uvicorn[standard]>=0.30',
    'fastapi==0.1',
]
".
Definition extras_deps : list str :=
  [u "uvicorn[standard]>=0.30"; u "fastapi==0.1"].

(** A manifest without extras. *)
Definition plain_text : str := u "[project]
name = 'demo'
dependencies = [
    'fastapi==0.1',
]
".
Definition plain_deps : list str := [u "fastapi==0.1"].

(** A manifest without any dependencies block. *)
Definition bare_text : str := u "[project]
name = 'demo'
".


(** A project in [/home/demo], entered in [/home/demo/src], on a platform
    whose line separator is [\n]; [deps] is what [tomllib] reads from
    [text], [outdated] what the listing returns. *)
Definition demo_env (deps : list str) (outdated : list Pkg) : Env :=
  mkEnv (λ _, Ok deps) (Ok outdated).
Definition demo_world (text : str) : World :=
  mkWorld {[ demo_manifest := text ]} (demo_dir ++ [u "src"]) [] newline.

Definition fastapi_outdated : list Pkg :=
  [mkPkg (u "fastapi") (u "0.1") (u "0.2")].

(** * Properties *)

Example ex_uvicorn :
  dependency_names [u "uvicorn[standard]>=0.30"; u "fastapi==0.120.2"]
  = Ok ({[ u "uvicorn"; u "fastapi" ]}).
Proof. vm_compute. reflexivity. Qed.

(** ** Strings *)

Lemma lstrip_split (s : str) :
  ∃ ws, s = ws ++ lstrip s ∧ Forall (λ c, isspace c = true) ws.
Proof.
  induction s as [|c s [ws [Hs Hws]]]; simpl.
  - by exists [].
  - destruct (isspace c) eqn:Hc.
    + exists (c :: ws). split; [simpl; by f_equal | by constructor].
    + by exists [].
Qed.

Lemma lstrip_head (s : str) :
  match lstrip s with [] => True | c :: _ => isspace c = false end.
Proof.
  induction s as [|c s IH]; simpl; [done|].
  destruct (isspace c) eqn:Hc; [done|]. exact Hc.
Qed.

Lemma lstrip_id (s : str) :
  match s with [] => True | c :: _ => isspace c = false end → lstrip s = s.
Proof. destruct s as [|c s]; simpl; [done|]. by intros ->. Qed.

Lemma lstrip_lstrip (s : str) : lstrip (lstrip s) = lstrip s.
Proof. apply lstrip_id, lstrip_head. Qed.

Lemma rstrip_split (s : str) :
  ∃ ws, s = rstrip s ++ ws ∧ Forall (λ c, isspace c = true) ws.
Proof.
  destruct (lstrip_split (reverse s)) as [ws [Hs Hws]].
  exists (reverse ws). split.
  - unfold rstrip. rewrite <- reverse_app, <- Hs. by rewrite reverse_involutive.
  - by apply Forall_reverse.
Qed.

Lemma rstrip_rstrip (s : str) : rstrip (rstrip s) = rstrip s.
Proof. unfold rstrip. by rewrite reverse_involutive, lstrip_lstrip. Qed.

Lemma rstrip_keeps_head (s : str) :
  match s with [] => True | c :: _ => isspace c = false end →
  match rstrip s with [] => s = [] | c :: _ => isspace c = false end.
Proof.
  intros Hs. destruct (rstrip_split s) as [ws [Heq Hws]].
  destruct (rstrip s) as [|c r]; simpl in Heq.
  - subst s. destruct ws as [|c ws]; [done|].
    apply Forall_cons in Hws as [Hc _]. congruence.
  - by subst s.
Qed.

Lemma strip_strip (s : str) : strip (strip s) = strip s.
Proof.
  unfold strip.
  assert (lstrip (rstrip (lstrip s)) = rstrip (lstrip s)) as ->.
  { apply lstrip_id.
    pose proof (rstrip_keeps_head (lstrip s) (lstrip_head s)) as H.
    by destruct (rstrip (lstrip s)). }
  apply rstrip_rstrip.
Qed.

Lemma Forall_strip (P : char → Prop) (s : str) :
  Forall P s → Forall P (strip s).
Proof.
  intros Hs. unfold strip.
  destruct (lstrip_split s) as [ws [Heq _]].
  destruct (rstrip_split (lstrip s)) as [ws' [Heq' _]].
  rewrite Heq, Heq' in Hs.
  by apply Forall_app in Hs as [_ [Hs _]%Forall_app].
Qed.

Lemma before_ext (p q : char → bool) (s : str) :
  (∀ c, p c = q c) → before p s = before q s.
Proof. intros Hpq. induction s as [|c s IH]; simpl; [done|]. by rewrite Hpq, IH. Qed.

Lemma before_before (p q : char → bool) (s : str) :
  before p (before q s) = before (λ c, q c || p c) s.
Proof.
  induction s as [|c s IH]; simpl; [done|].
  destruct (q c); simpl; [done|]. destruct (p c); [done|]. by rewrite IH.
Qed.

Lemma before_free (p : char → bool) (s : str) :
  Forall (λ c, p c = false) (before p s).
Proof.
  induction s as [|c s IH]; simpl; [constructor|].
  destruct (p c) eqn:Hc; by constructor.
Qed.

Lemma before_id (p : char → bool) (s : str) :
  Forall (λ c, p c = false) s → before p s = s.
Proof. induction 1 as [|c s Hc _ IH]; simpl; [done|]. by rewrite Hc, IH. Qed.

(** ** [split] and [in] on a one-character separator *)

Lemma cut_char (c : char) (s : str) :
  cut [c] s = Ok (before (λ x, (c =? x)%N) s).
Proof.
  induction s as [|b s IH]; [done|].
  unfold cut, contains, split1 in *. simpl.
  destruct (c =? b)%N eqn:Hcb; simpl; [done|].
  destruct (find [c] s) as [i|]; simpl in *; congruence.
Qed.

Lemma is_sep_chain (c : char) :
  ((91 =? c) || ((60 =? c) || ((62 =? c) || ((61 =? c) || ((33 =? c)
   || ((126 =? c) || (32 =? c)))))))%N = is_sep c.
Proof.
  unfold is_sep.
  repeat (match goal with
          | |- context [(?k =? c)%N] =>
              destruct (N.eqb_spec k c) as [<-|?]; [done|]
          end).
  symmetry. apply bool_decide_eq_false.
  let l := eval vm_compute in (u "[<>=!~ ") in change (u "[<>=!~ ") with l.
  rewrite !elem_of_cons, elem_of_nil. intuition congruence.
Qed.

Lemma dep_name_ok (dep : str) : dep_name dep = Ok (bare_name dep).
Proof.
  unfold dep_name, bare_name, version_seps.
  change (u "[") with [91%N]. change (u "<") with [60%N].
  change (u ">") with [62%N]. change (u "=") with [61%N].
  change (u "!") with [33%N]. change (u "~") with [126%N].
  change (u " ") with [32%N].
  rewrite cut_char. cbn [rbind cut_each]. 
  repeat (rewrite cut_char; cbn [rbind]).
  rewrite !before_before. do 2 f_equal. apply before_ext, is_sep_chain.
Qed.

(** ** The names of a list of declarations *)

Lemma collect_names_ok (deps : list str) (names : gset str) :
  collect_names deps names
  = Ok (names ∪ list_to_set (filter (λ n, n ≠ []) (bare_name <$> deps))).
Proof.
  revert names. induction deps as [|dep deps IH]; intros names; simpl.
  - f_equal. set_solver.
  - rewrite dep_name_ok. cbn [rbind]. rewrite IH. f_equal.
    rewrite filter_cons. case_bool_decide; case_decide; try done; set_solver.
Qed.

Lemma dependency_names_ok (deps : list str) :
  dependency_names deps
  = Ok (list_to_set (filter (λ n, n ≠ []) (bare_name <$> deps))).
Proof.
  unfold dependency_names. rewrite collect_names_ok. f_equal. set_solver.
Qed.

Lemma elem_of_names (deps : list str) (n : str) :
  n ∈ (list_to_set (filter (λ n, n ≠ []) (bare_name <$> deps)) : gset str)
  ↔ n ≠ [] ∧ ∃ dep, dep ∈ deps ∧ n = bare_name dep.
Proof.
  rewrite elem_of_list_to_set, list_elem_of_filter, list_elem_of_fmap.
  naive_solver.
Qed.

Lemma bare_name_free (dep : str) :
  Forall (λ c, is_sep c = false) (bare_name dep).
Proof. apply Forall_strip, before_free. Qed.

Lemma bare_name_idem (dep : str) : bare_name (bare_name dep) = bare_name dep.
Proof.
  unfold bare_name at 1. rewrite before_id by apply bare_name_free.
  apply strip_strip.
Qed.

Lemma names_same_elements (deps deps' : list str) :
  (∀ d, d ∈ deps ↔ d ∈ deps') →
  dependency_names deps = dependency_names deps'.
Proof.
  intros Hsame. rewrite !dependency_names_ok. f_equal.
  apply set_eq. intros n. rewrite !elem_of_names. naive_solver.
Qed.

Lemma names_permutation (deps deps' : list str) :
  deps ≡ₚ deps' → dependency_names deps = dependency_names deps'.
Proof. intros Hp. apply names_same_elements. intros d. by rewrite Hp. Qed.

Lemma names_duplicated (deps : list str) :
  dependency_names (deps ++ deps) = dependency_names deps.
Proof. apply names_same_elements. intros d. rewrite elem_of_app. tauto. Qed.

Lemma names_reextracted (deps : list str) :
  dependency_names
    (elements (list_to_set (filter (λ n, n ≠ []) (bare_name <$> deps))
               : gset str))
  = dependency_names deps.
Proof.
  rewrite !dependency_names_ok. f_equal. apply set_eq. intros n.
  rewrite elem_of_names. setoid_rewrite elem_of_elements.
  setoid_rewrite elem_of_names. split.
  - intros [Hn [d [[_ [dep [Hdep ->]]] ->]]]. rewrite bare_name_idem in *. eauto.
  - intros [Hn [dep [Hdep ->]]]. split; [done|].
    exists (bare_name dep). rewrite bare_name_idem. eauto.
Qed.

(** The claim C3 fails on a declaration that starts with a space: the
    text before the extras and the first version operator is
    [" fastapi"], yet the code, which cuts at the space as well, finds the
    empty name and returns no name at all, neither that text nor
    ["fastapi"]. *)
Lemma leading_space_loses_name :
  spec_name (u " fastapi==0.120.2") = u " fastapi"
  ∧ dependency_names [u " fastapi==0.120.2"] = Ok ∅
  ∧ ¬ ∃ names : gset str,
        dependency_names [u " fastapi==0.120.2"] = Ok names
        ∧ (spec_name (u " fastapi==0.120.2") ∈ names
           ∨ strip (spec_name (u " fastapi==0.120.2")) ∈ names).
Proof.
  assert (dependency_names [u " fastapi==0.120.2"] = Ok ∅) as Hnames
    by (vm_compute; reflexivity).
  split; [vm_compute; reflexivity|]. split; [done|].
  intros (names & Hn & Hin). rewrite Hnames in Hn. injection Hn as <-.
  destruct Hin as [Hin|Hin]; by apply not_elem_of_empty in Hin.
Qed.

(** C3, as the code has it.  For every list of declarations the
    extraction returns the set of the names the code gives them: a name
    is in the set exactly when it is not empty and is, for some
    declaration of the list, the text before the first opening bracket,
    version-operator character or space, with surrounding white space
    removed.  ["uvicorn[standard]>=0.30"] yields ["uvicorn"]. *)
Theorem names_are_bare_names :
  (∀ deps : list str, ∃ names : gset str,
     dependency_names deps = Ok names
     ∧ ∀ n, n ∈ names ↔ n ≠ [] ∧ ∃ dep, dep ∈ deps ∧ n = bare_name dep)
  ∧ dependency_names [u "uvicorn[standard]>=0.30"] = Ok {[ u "uvicorn" ]}.
Proof.
  split.
  - intros deps. eexists. split; [apply dependency_names_ok|].
    intros n. apply elem_of_names.
  - vm_compute. reflexivity.
Qed.

(** C4. Extraction is idempotent: the name extracted from a declaration
    is its own name, and extracting from the extracted names returns the
    same set.  It is order-independent: two lists with the same entries,
    in any order and with any repetitions, give the same set. *)
Theorem names_idempotent_order_independent
    (dep : str) (deps deps' : list str)
    (Hsame : ∀ d, d ∈ deps ↔ d ∈ deps') :
  (∃ n, dep_name dep = Ok n ∧ dep_name n = Ok n)
  ∧ (∃ names : gset str,
       dependency_names deps = Ok names
       ∧ dependency_names (elements names) = Ok names
       ∧ dependency_names deps' = Ok names).
Proof.
  split.
  - exists (bare_name dep). rewrite !dep_name_ok. by rewrite bare_name_idem.
  - eexists. split; [apply dependency_names_ok|]. split.
    + rewrite names_reextracted. apply dependency_names_ok.
    + rewrite <- (names_same_elements deps deps' Hsame).
      apply dependency_names_ok.
Qed.

Lemma names_idempotent_order_independent_witness :
  let deps := [u "fastapi==0.120.2"; u "uvicorn[standard]>=0.30"] in
  let deps' := [u "uvicorn[standard]>=0.30"; u "fastapi==0.120.2";
                u "uvicorn[standard]>=0.30"] in
  (∀ d, d ∈ deps ↔ d ∈ deps')
  ∧ (∃ names : gset str,
       dependency_names deps = Ok names
       ∧ dependency_names (elements names) = Ok names
       ∧ dependency_names deps' = Ok names).
Proof.
  intros deps deps'.
  assert (∀ d, d ∈ deps ↔ d ∈ deps') as Hsame.
  { intros d. unfold deps, deps'. rewrite !elem_of_cons, elem_of_nil. tauto. }
  split; [exact Hsame|].
  exact (proj2 (names_idempotent_order_independent (u "fastapi==0.120.2")
                  deps deps' Hsame)).
Defined.

(** C8. On every list of strings the extraction returns a set and raises
    nothing; an entry without any extras bracket or version operator is
    passed through as its own name, white space trimmed; and the call
    leaves the files, the working directory and the output as they
    were. *)
Theorem names_total_and_pure :
  (∀ deps : list str, ∃ names : gset str,
     dependency_names deps = Ok names
     ∧ ∀ dep, dep ∈ deps → Forall (λ c, is_sep c = false) dep →
         strip dep ≠ [] → strip dep ∈ names)
  ∧ (∀ env pyproject_path w,
       fst (_get_direct_dependency_names env pyproject_path w) = w)
  ∧ (∀ env pyproject_path w text deps,
       fs w !! pyproject_path = Some text →
       toml_dependencies env text = Ok deps →
       ∃ names, _get_direct_dependency_names env pyproject_path w
                = (w, Ok names)).
Proof.
  split; [|split].
  - intros deps. eexists. split; [apply dependency_names_ok|].
    intros dep Hdep Hfree Hne. apply elem_of_names. split; [done|].
    exists dep. split; [done|]. unfold bare_name. by rewrite before_id.
  - intros env p w. unfold _get_direct_dependency_names, bind, read_binary, lift.
    destruct (fs w !! p); [|done].
    by destruct (toml_dependencies env l).
  - intros env p w text deps Hfs Htoml.
    unfold _get_direct_dependency_names, bind, read_binary, lift.
    rewrite Hfs, Htoml, dependency_names_ok. eauto.
Qed.

(** ** The pattern search finds the leftmost match, closed at the first
    closing bracket *)

Ltac list_len := repeat (rewrite length_app || (progress simpl)); lia.

Lemma startswith_app (p r : str) : startswith p (p ++ r) = true.
Proof. induction p as [|a p IH]; simpl; [done|]. by rewrite N.eqb_refl. Qed.

Lemma startswith_inv (p s : str) :
  startswith p s = true → s = p ++ drop (length p) s.
Proof.
  revert s. induction p as [|a p IH]; intros [|b s]; simpl; try done.
  intros [Hab Hps]%andb_prop. apply N.eqb_eq in Hab as ->.
  f_equal. by apply IH.
Qed.

Lemma lstrip_app (ws r : str) : spaces ws → lstrip (ws ++ r) = lstrip r.
Proof. induction 1 as [|c ws Hc _ IH]; simpl; [done|]. by rewrite Hc. Qed.

Lemma find_char_Some (c : char) (s : str) (j : nat) :
  find [c] s = Some j → s = take j s ++ c :: drop (S j) s.
Proof.
  revert j. induction s as [|b s IH]; intros j; simpl; [done|].
  destruct (c =? b)%N eqn:Hcb; simpl.
  - intros [= <-]. apply N.eqb_eq in Hcb as ->. by rewrite drop_0.
  - destruct (find [c] s) as [i|]; simpl; [|done].
    intros [= <-]. simpl. f_equal. by apply IH.
Qed.

Lemma find_char_app (c : char) (a b : str) :
  ∃ j, find [c] (a ++ c :: b) = Some j ∧ j ≤ length a.
Proof.
  induction a as [|x a [j [Hj Hle]]]; simpl.
  - rewrite N.eqb_refl. simpl. exists 0. split; [done|lia].
  - destruct (c =? x)%N; simpl.
    + exists 0. split; [done|lia].
    + rewrite Hj. exists (S j). split; [done|lia].
Qed.

Lemma match_here_sound (t : str) (n : nat) :
  match_here t = Some n → n ≤ length t ∧ in_pattern (take n t).
Proof.
  unfold match_here.
  destruct (startswith keyword t) eqn:Hkw; [|done].
  apply startswith_inv in Hkw.
  destruct (lstrip_split (drop (length keyword) t)) as [w1 [Hw1 Hs1]].
  destruct (lstrip (drop (length keyword) t)) as [|c r]; [done|].
  destruct (N.eqb_spec c c_eq) as [->|]; [|done].
  destruct (lstrip_split r) as [w2 [Hw2 Hs2]].
  destruct (lstrip r) as [|c' body]; [done|].
  destruct (N.eqb_spec c' c_lbracket) as [->|]; [|done].
  destruct (find [c_rbracket] body) as [j|] eqn:Hfind; [|done].
  intros [= <-]. apply find_char_Some in Hfind.
  set (P := keyword ++ w1 ++ c_eq :: w2 ++ [c_lbracket]).
  assert (t = P ++ body) as Ht.
  { unfold P. rewrite Hkw, Hw1, Hw2 at 1.
    by rewrite <- !app_assoc, <- !app_comm_cons, <- !app_assoc. }
  assert (length t - length body = length P) as ->.
  { rewrite Ht at 1. rewrite length_app. lia. }
  assert (j < length body) as Hj.
  { apply (f_equal length) in Hfind.
    rewrite length_app, length_take in Hfind. simpl in Hfind. lia. }
  split.
  - rewrite Ht, length_app. lia.
  - exists w1, w2, (take j body). split; [|done].
    rewrite Ht, Hfind at 1.
    replace (length P + j + 1) with (length (P ++ take j body ++ [c_rbracket])).
    2:{ rewrite !length_app, length_take. simpl. lia. }
    replace (P ++ take j body ++ c_rbracket :: drop (S j) body)
      with ((P ++ take j body ++ [c_rbracket]) ++ drop (S j) body).
    2:{ by rewrite <- !app_assoc. }
    rewrite take_app_length. unfold P.
    by rewrite <- !app_assoc, <- !app_comm_cons, <- !app_assoc.
Qed.

Lemma match_here_complete (m rest : str) :
  in_pattern m → ∃ n, match_here (m ++ rest) = Some n ∧ n ≤ length m.
Proof.
  intros (w1 & w2 & body & -> & Hs1 & Hs2).
  destruct (find_char_app c_rbracket body rest) as [j [Hfind Hj]].
  exists (length (keyword ++ w1 ++ c_eq :: w2 ++ [c_lbracket]) + j + 1).
  split.
  - unfold match_here. rewrite <- !app_assoc.
    rewrite startswith_app, drop_app_length.
    rewrite lstrip_app by done. simpl.
    rewrite <- !app_assoc. rewrite lstrip_app by done. simpl.
    rewrite <- !app_assoc. simpl. rewrite Hfind. f_equal. list_len.
  - list_len.
Qed.

Lemma search_from_Some (i : nat) (t : str) (s e : nat) :
  search_from i t = Some (s, e) →
  ∃ k n, s = i + k ∧ e = s + n ∧ k ≤ length t
         ∧ match_here (drop k t) = Some n
         ∧ ∀ k', k' < k → match_here (drop k' t) = None.
Proof.
  revert i. induction t as [|c t IH]; intros i; simpl.
  - done.
  - destruct (match_here (c :: t)) as [n|] eqn:Hm.
    + intros [= <- <-]. exists 0, n.
      split; [lia|]. split; [lia|]. split; [lia|]. split; [done|]. lia.
    + intros (k & n & -> & -> & Hk & Hn & Hnone)%IH.
      exists (S k), n.
      split; [lia|]. split; [lia|]. split; [lia|]. split; [done|].
      intros [|k'] Hlt; [done|]. simpl. apply Hnone. lia.
Qed.

Lemma search_from_None (i : nat) (t : str) :
  search_from i t = None →
  ∀ k, k ≤ length t → match_here (drop k t) = None.
Proof.
  revert i. induction t as [|c t IH]; intros i; simpl.
  - intros _ [|k] Hk; [done|]. simpl in Hk. lia.
  - destruct (match_here (c :: t)) eqn:Hm; [done|].
    intros Hs [|k] Hk; [done|]. simpl. apply (IH _ Hs). simpl in Hk. lia.
Qed.

Lemma slice_rest (s e : nat) (text : str) :
  s ≤ e → drop s text = slice s e text ++ drop e text.
Proof.
  intros Hse. unfold slice.
  replace (drop e text) with (drop (e - s) (drop s text)).
  { by rewrite take_drop. }
  rewrite drop_drop. f_equal. lia.
Qed.

(** The span returned is a match; no match starts further left, and none
    that starts at the same place ends earlier. *)
Lemma pattern_search_Some (text : str) (s e : nat) :
  pattern_search text = Some (s, e) →
  s ≤ e ∧ e ≤ length text ∧ in_pattern (slice s e text)
  ∧ ∀ s' e', s' ≤ e' → e' ≤ length text → in_pattern (slice s' e' text) →
      s < s' ∨ (s = s' ∧ e ≤ e').
Proof.
  intros (k & n & -> & -> & Hk & Hn & Hnone)%search_from_Some. simpl in *.
  destruct (match_here_sound _ _ Hn) as [Hlen Hin].
  rewrite length_drop in Hlen.
  split; [lia|]. split; [lia|]. split.
  { unfold slice. by replace (k + n - k) with n by lia. }
  intros s' e' Hse He Hpat.
  destruct (match_here_complete _ (drop e' text) Hpat) as [n' [Hn' Hle]].
  rewrite <- slice_rest in Hn' by done.
  assert (length (slice s' e' text) = e' - s') as Hlen'.
  { unfold slice. rewrite length_take, length_drop. lia. }
  destruct (decide (s' < k)) as [Hlt|Hge].
  - rewrite (Hnone _ Hlt) in Hn'. done.
  - destruct (decide (s' = k)) as [->|]; [|lia].
    right. rewrite Hn in Hn'. injection Hn' as <-. lia.
Qed.

Lemma pattern_search_None (text : str) :
  pattern_search text = None →
  ∀ s e, s ≤ e → e ≤ length text → ¬ in_pattern (slice s e text).
Proof.
  intros Hnone s e Hse He Hpat.
  destruct (match_here_complete _ (drop e text) Hpat) as [n [Hn _]].
  rewrite <- slice_rest in Hn by done.
  rewrite (search_from_None _ _ Hnone) in Hn; [done|lia].
Qed.

(** ** The rewrite of the dependencies block *)

Lemma update_deps_ok (new_versions : gmap str str) (deps : list str) :
  update_deps new_versions deps = Ok (rewritten new_versions <$> deps).
Proof.
  induction deps as [|dep deps IH]; simpl; [done|].
  by rewrite dep_name_ok, IH.
Qed.

Lemma rewritten_insert_other (new_versions : gmap str str) (k v dep : str) :
  bare_name dep ≠ k →
  rewritten (<[k := v]> new_versions) dep = rewritten new_versions dep.
Proof. intros Hne. unfold rewritten. by rewrite lookup_insert_ne. Qed.

(** ["a\r\nb\rc\n\r\r\nd\r"] is read as ["a\nb\nc\n\n\nd\n"]. *)
Example universal_newlines_mixed :
  universal_newlines [97; 13; 10; 98; 13; 99; 10; 13; 13; 10; 100; 13]%N
  = [97; 10; 98; 10; 99; 10; 10; 10; 100; 10]%N.
Proof. reflexivity. Qed.




Lemma update_block_run (env : Env) (p : path) (new_versions : gmap str str)
    (w : World) (raw : str) :
  fs w !! p = Some raw →
  _update_pyproject_dependencies_block env p new_versions w
  = match pattern_search (universal_newlines raw) with
    | None => (printed w [no_block_message], Raise (SystemExit 1))
    | Some (s, e) =>
        match toml_dependencies env (universal_newlines raw) with
        | Ok deps =>
            (mkWorld
               (<[p := os_newlines (linesep w)
                         (take s (universal_newlines raw)
                          ++ new_block (rewritten new_versions <$> deps)
                          ++ drop e (universal_newlines raw))]> (fs w))
               (cwd w) (stdout w) (linesep w), Ok tt)
        | Raise err => (w, Raise err)
        end
    end.
Proof.
  intros Hfs.
  unfold _update_pyproject_dependencies_block, bind, read_text. rewrite Hfs.
  destruct (pattern_search (universal_newlines raw)) as [[s e]|]; [|done].
  unfold lift.
  destruct (toml_dependencies env (universal_newlines raw)) as [deps|err];
    [|done].
  by rewrite update_deps_ok.
Qed.


(** C10. Every parsed declaration gives exactly one entry of the rebuilt
    block, whatever the update map; and a key that is the stripped name of
    no parsed declaration changes nothing: the rewrite with that key added
    to the map does what the rewrite without it does, entries, file and
    outcome alike. *)
Theorem rewrite_keeps_entries
    (new_versions : gmap str str) (deps : list str) (k v : str)
    (Hk : ∀ dep, dep ∈ deps → bare_name dep ≠ k) :
  (∃ updated_deps,
     update_deps new_versions deps = Ok updated_deps
     ∧ length updated_deps = length deps)
  ∧ update_deps (<[k := v]> new_versions) deps
    = update_deps new_versions deps
  ∧ ∀ env p w raw,
      fs w !! p = Some raw →
      toml_dependencies env (universal_newlines raw) = Ok deps →
      _update_pyproject_dependencies_block env p (<[k := v]> new_versions) w
      = _update_pyproject_dependencies_block env p new_versions w.
Proof.
  assert (rewritten (<[k := v]> new_versions) <$> deps
          = rewritten new_versions <$> deps) as Heq.
  { apply list_fmap_ext. intros i dep Hi.
    apply rewritten_insert_other, Hk. by eapply list_elem_of_lookup_2. }
  split; [|split].
  - eexists. split; [apply update_deps_ok|]. by rewrite length_fmap.
  - by rewrite !update_deps_ok, Heq.
  - intros env p w raw Hfs Hdeps.
    rewrite !(update_block_run _ _ _ _ _ Hfs), Hdeps.
    destruct (pattern_search (universal_newlines raw)) as [[s e]|]; [|done].
    by rewrite Heq.
Qed.

Lemma rewrite_keeps_entries_witness :
  let deps := [u "fastapi==0.120.2"; u "uvicorn[standard]>=0.30"] in
  let new_versions : gmap str str := {[ u "fastapi" := u "0.121.2" ]} in
  update_deps (<[u "httpx" := u "1.0"]> new_versions) deps
  = update_deps new_versions deps.
Proof.
  intros deps new_versions.
  refine (proj1 (proj2 (rewrite_keeps_entries new_versions deps
                          (u "httpx") (u "1.0") _))).
  intros dep Hdep. unfold deps in Hdep.
  rewrite !elem_of_cons, elem_of_nil in Hdep.
  destruct Hdep as [->|[->|[]]]; vm_compute; discriminate.
Defined.

(** ** Looking for the project root *)

Lemma first_candidate_run (dirs : list path) (w : World) :
  first_candidate dirs w = (w, Ok (first_with_manifest (fs w) dirs)).
Proof.
  induction dirs as [|d dirs IH]; simpl; [done|].
  unfold bind, path_exists. by case_bool_decide.
Qed.

Lemma find_project_root_run (w : World) :
  _find_project_root w
  = match project_root w with
    | Some d => (w, Ok d)
    | None => (printed w [no_manifest_message], Raise (SystemExit 1))
    end.
Proof.
  unfold _find_project_root, bind, getcwd. rewrite first_candidate_run.
  fold (project_root w). by destruct (project_root w).
Qed.

Lemma first_with_manifest_Some files dirs d :
  first_with_manifest files dirs = Some d →
  d ∈ dirs ∧ is_Some (files !! (d ++ [manifest_name])).
Proof.
  induction dirs as [|d' dirs IH]; simpl; [done|].
  case_bool_decide as Hd.
  - intros [= <-]. split; [left|done].
  - intros [Hin Hsome]%IH. split; [by right|done].
Qed.

Lemma first_with_manifest_None files dirs :
  first_with_manifest files dirs = None ↔
  ∀ d, d ∈ dirs → files !! (d ++ [manifest_name]) = None.
Proof.
  induction dirs as [|d' dirs IH]; simpl.
  - split; [|done]. intros _ d Hd. by apply elem_of_nil in Hd.
  - case_bool_decide as Hd.
    + split; [done|]. intros Hall.
      rewrite (Hall d') in Hd by left. by destruct Hd.
    + rewrite IH. split.
      * intros Hall d [->|Hin]%elem_of_cons; [|by apply Hall].
        by apply eq_None_not_Some.
      * intros Hall d Hin. apply Hall. by right.
Qed.

(** The candidates of the walk are the working directory and its
    ancestors. *)
Lemma elem_of_candidates (p d : path) :
  d ∈ p :: parents p ↔ ∃ n, n ≤ length p ∧ d = take n p.
Proof.
  unfold parents. rewrite elem_of_cons, list_elem_of_fmap.
  setoid_rewrite elem_of_reverse. setoid_rewrite elem_of_seq. split.
  - intros [->|[n [-> Hn]]].
    + exists (length p). by rewrite take_ge.
    + exists n. split; [lia|done].
  - intros [n [Hn ->]]. destruct (decide (n = length p)) as [->|].
    + left. by rewrite take_ge.
    + right. exists n. split; [done|lia].
Qed.

(** ** The runs of [main] *)

Lemma collect_versions_run (to_update : list Pkg)
    (new_versions : gmap str str) (w : World) :
  collect_versions to_update new_versions w
  = (printed w (update_line <$> to_update),
     Ok (versions_of to_update new_versions)).
Proof.
  revert new_versions w.
  induction to_update as [|pkg rest IH]; intros new_versions w; simpl.
  - unfold ret, printed. rewrite app_nil_r. by destruct w.
  - unfold bind, print at 1. rewrite IH. unfold printed. simpl.
    by rewrite <- app_assoc.
Qed.

Section Runs.
Context (env : Env) (w : World).


Context (d : path) (text : str).
Context (Hroot : project_root w = Some d).
Context (Htext : fs w !! (d ++ [manifest_name]) = Some text).

Lemma main_parse_error (err : exn) :
  toml_dependencies env text = Raise err → main env w = (w, Raise err).
Proof.
  intros Hparse. unfold main, bind.
  rewrite find_project_root_run, Hroot.
  unfold path_exists. rewrite Htext, bool_decide_true by done. simpl.
  unfold _get_direct_dependency_names, bind, read_binary, lift.
  by rewrite Htext, Hparse.
Qed.

Context (deps : list str).
Context (Hdeps : toml_dependencies env text = Ok deps).

Lemma main_no_deps :
  names_of deps = ∅ → main env w = (printed w [no_deps_message], Ok tt).
Proof.
  intros Hnames. unfold main, bind.
  rewrite find_project_root_run, Hroot.
  unfold path_exists. rewrite Htext, bool_decide_true by done. simpl.
  unfold _get_direct_dependency_names, bind, read_binary, lift.
  rewrite Htext, Hdeps, dependency_names_ok.
  fold (names_of deps). by rewrite bool_decide_true.
Qed.

Context (Hnames : names_of deps ≠ ∅).

Lemma main_uv_error (err : exn) :
  uv_pip_list_outdated env = Raise err →
  main env w = (printed w [direct_deps_line (names_of deps)], Raise err).
Proof.
  intros Huv. unfold main, bind.
  rewrite find_project_root_run, Hroot.
  unfold path_exists. rewrite Htext, bool_decide_true by done. simpl.
  unfold _get_direct_dependency_names, bind, read_binary, lift.
  rewrite Htext, Hdeps, dependency_names_ok.
  fold (names_of deps). rewrite bool_decide_false by done.
  unfold print at 1. by rewrite Huv.
Qed.

Context (outdated : list Pkg).
Context (Huv : uv_pip_list_outdated env = Ok outdated).

Lemma main_none_outdated :
  filter (λ pkg, pkg_name pkg ∈ names_of deps) outdated = [] →
  main env w
  = (printed w [direct_deps_line (names_of deps); none_outdated_message],
     Ok tt).
Proof.
  intros Hnone. unfold main, bind.
  rewrite find_project_root_run, Hroot.
  unfold path_exists. rewrite Htext, bool_decide_true by done. simpl.
  unfold _get_direct_dependency_names, bind, read_binary, lift.
  rewrite Htext, Hdeps, dependency_names_ok.
  fold (names_of deps). rewrite bool_decide_false by done.
  unfold print at 1. rewrite Huv, Hnone.
  unfold print, printed. simpl. by rewrite <- app_assoc.
Qed.

End Runs.

Lemma filter_none_outdated (names : gset str) (outdated : list Pkg) :
  (∀ pkg, pkg ∈ outdated → pkg_name pkg ∉ names) →
  filter (λ pkg, pkg_name pkg ∈ names) outdated = [].
Proof.
  induction outdated as [|pkg rest IH]; intros Hnone; [done|].
  rewrite filter_cons. case_decide as Hin.
  - exfalso. by apply (Hnone pkg); [left|].
  - apply IH. intros pkg' Hpkg'. apply Hnone. by right.
Qed.

(** C5. When the manifest is found and read, and either it declares no
    dependency or the listing of outdated packages names none of its
    direct dependencies, [main] returns normally (exit status 0), the last
    line printed is the corresponding informational message, and no file
    is changed. *)
Theorem main_informational_exit
    (env : Env) (w : World) (d : path) (text : str) (deps : list str)
    (Hroot : project_root w = Some d)
    (Htext : fs w !! (d ++ [manifest_name]) = Some text)
    (Hdeps : toml_dependencies env text = Ok deps)
    (Hcase : deps = []
             ∨ ∃ outdated,
                 uv_pip_list_outdated env = Ok outdated
                 ∧ ∀ pkg, pkg ∈ outdated → pkg_name pkg ∉ names_of deps) :
  ∃ lines msg,
    main env w = (printed w (lines ++ [msg]), Ok tt)
    ∧ (msg = no_deps_message ∨ msg = none_outdated_message)
    ∧ exit_code (snd (main env w)) = 0%Z
    ∧ fs (fst (main env w)) = fs w.
Proof.
  destruct (decide (names_of deps = ∅)) as [Hempty|Hnames].
  - exists [], no_deps_message.
    rewrite (main_no_deps env w d text Hroot Htext deps Hdeps Hempty).
    auto.
  - destruct Hcase as [->|[outdated [Huv Hnone]]]; [done|].
    exists [direct_deps_line (names_of deps)], none_outdated_message.
    rewrite (main_none_outdated env w d text Hroot Htext deps Hdeps Hnames
               outdated Huv (filter_none_outdated _ _ Hnone)).
    auto.
Qed.


(** ** The properties at concrete projects *)



Lemma main_informational_exit_witness :
  ∃ lines msg,
    main (demo_env plain_deps []) (demo_world plain_text)
    = (printed (demo_world plain_text) (lines ++ [msg]), Ok tt)
    ∧ (msg = no_deps_message ∨ msg = none_outdated_message)
    ∧ exit_code (snd (main (demo_env plain_deps []) (demo_world plain_text)))
      = 0%Z
    ∧ fs (fst (main (demo_env plain_deps []) (demo_world plain_text)))
      = fs (demo_world plain_text).
Proof.
  apply (main_informational_exit (demo_env plain_deps [])
           (demo_world plain_text) demo_dir plain_text plain_deps).
  - vm_compute. reflexivity.
  - vm_compute. reflexivity.
  - reflexivity.
  - right. exists []. split; [reflexivity|].
    intros pkg Hpkg. by apply elem_of_nil in Hpkg.
Defined.



(** C1, where the code departs from it.  On a manifest whose first
    declaration has extras the pattern closes at the bracket that ends
    the extras, so the span covers only the head of the list: the
    rewrite stores the rebuilt block followed by the rest of the old
    list, and the stored text no longer is a manifest with two
    declarations.  A run of [main] with [fastapi] listed as outdated
    leaves the same text. *)
Theorem rewrite_cuts_list_at_extras :
  let w := demo_world extras_text in
  let env := demo_env extras_deps fastapi_outdated in
  let out :=
    _update_pyproject_dependencies_block env demo_manifest
      {[ u "fastapi" := u "0.2" ]} w in
  let broken :=
    u "[project]
name = 'demo'
" ++ new_block [u "uvicorn[standard]>=0.30"; u "fastapi==0.2"]
      ++ u ">=0.30',
    'fastapi==0.1',
]
" in
  pattern_search extras_text = Some (24, 63)
  ∧ slice 24 63 extras_text = u "dependencies = [
    'uvicorn[standard]"
  ∧ snd out = Ok tt
  ∧ fs (fst out) !! demo_manifest = Some broken
  ∧ snd (main env w) = Ok tt
  ∧ fs (fst (main env w)) !! demo_manifest = Some broken.
Proof. vm_compute. repeat split; reflexivity. Qed.

(** ** The web service *)

Example echo_empty : echo (mkEchoRequest []) !! u "message" = Some [].
Proof. apply lookup_singleton_eq. Qed.

(** U+00E4, U+20AC and U+1F600 *)
Example echo_non_ascii :
  echo (mkEchoRequest [228; 8364; 128512]%N) !! u "message"
  = Some [228; 8364; 128512]%N.
Proof. apply lookup_singleton_eq. Qed.

(** A message of non-ASCII characters, served. *)
Example echo_serves_non_ascii :
  app (mkRequest POST (u "/echo")
         (Some {[ u "message" := [228; 8364; 128512]%N ]}))
  = mkResponse 200 {[ u "message" := [228; 8364; 128512]%N ]}.
Proof. vm_compute. reflexivity. Qed.

(** The claim C6 fails on a message that holds a lone surrogate (the JSON
    string ["\ud800"]): the handler returns it, the response cannot be
    encoded, and the request is answered with status 500 and no
    [message]. *)
Lemma echo_lone_surrogate :
  let r :=
    app (mkRequest POST (u "/echo") (Some {[ u "message" := [55296%N] ]})) in
  echo (mkEchoRequest [55296%N]) !! u "message" = Some [55296%N]
  ∧ status_code r = 500%Z
  ∧ json r !! u "message" ≠ Some [55296%N].
Proof. vm_compute. repeat split. discriminate. Qed.

(** C6, as the code has it.  Whatever the message, empty or not, of
    whatever characters, the echo handler returns it as it is in the
    field [message].  A POST to [/echo] carrying a message that holds no
    lone surrogate, the empty message and non-ASCII text included, is
    answered with status 200 and that payload; one carrying a message
    with a lone surrogate is answered with status 500. *)
Theorem echo_returns_message (m : str) (body : gmap str str) :
  echo (mkEchoRequest m) !! u "message" = Some m
  ∧ echo (mkEchoRequest m) = {[ u "message" := m ]}
  ∧ (utf8_encodable m = true →
     app (mkRequest POST (u "/echo") (Some (<[u "message" := m]> body)))
     = mkResponse 200 {[ u "message" := m ]})
  ∧ (utf8_encodable m = false →
     app (mkRequest POST (u "/echo") (Some (<[u "message" := m]> body)))
     = mkResponse 500 ∅).
Proof.
  split; [apply lookup_singleton_eq|]. split; [done|].
  assert (app (mkRequest POST (u "/echo") (Some (<[u "message" := m]> body)))
          = if utf8_encodable m
            then mkResponse 200 (echo (mkEchoRequest m))
            else mkResponse 500 ∅) as ->.
  { unfold app. cbn [req_path req_method req_json].
    rewrite bool_decide_false by (vm_compute; discriminate).
    rewrite bool_decide_true by done.
    cbn [mbind option_bind]. by rewrite lookup_insert_eq. }
  split; by intros ->.
Qed.

(** C7. A GET to [/health] is answered with status 200 and the payload
    [{"status": "ok"}], whatever requests were served before it. *)
Theorem health_fixed (history : list Request) (body : option (gmap str str)) :
  health = {[ u "status" := u "ok" ]}
  ∧ last (serve (history ++ [mkRequest GET (u "/health") body]))
    = Some (mkResponse 200 {[ u "status" := u "ok" ]}).
Proof.
  split; [done|]. unfold serve. rewrite fmap_app. simpl.
  rewrite last_snoc. f_equal.
Qed.

(** * Further properties of the code *)

(** ** The walk upward *)

Lemma candidates_lookup (p : path) (i : nat) :
  i ≤ length p → (p :: parents p) !! i = Some (take (length p - i) p).
Proof.
  intros Hi. destruct i as [|k]; simpl.
  - by rewrite Nat.sub_0_r, take_ge.
  - unfold parents. rewrite list_lookup_fmap.
    rewrite reverse_lookup by (rewrite length_seq; lia).
    rewrite length_seq, lookup_seq_lt by lia. done.
Qed.

Lemma first_with_manifest_first files dirs d :
  first_with_manifest files dirs = Some d →
  ∃ i, dirs !! i = Some d
       ∧ ∀ j d', j < i → dirs !! j = Some d' →
           files !! (d' ++ [manifest_name]) = None.
Proof.
  induction dirs as [|d0 dirs IH]; simpl; [done|].
  case_bool_decide as Hd.
  - intros [= <-]. exists 0. split; [done|]. intros j d' Hj. lia.
  - intros [i [Hi Hbefore]]%IH. exists (S i). split; [done|].
    intros [|j] d' Hj; simpl.
    + intros [= <-]. by apply eq_None_not_Some.
    + apply Hbefore. lia.
Qed.

(** X1. When the search for the project root returns, it returns the
    nearest directory, from the working directory upward, that holds a
    [pyproject.toml]: an ancestor-or-self of the working directory with
    the manifest in it and no manifest in any directory between it and the
    working directory; and the search has changed nothing. *)
Theorem find_project_root_nearest (w : World) (d : path)
    (Hret : snd (_find_project_root w) = Ok d) :
  fst (_find_project_root w) = w
  ∧ ∃ n, n ≤ length (cwd w) ∧ d = take n (cwd w)
         ∧ is_Some (fs w !! (d ++ [manifest_name]))
         ∧ ∀ m, n < m → m ≤ length (cwd w) →
             fs w !! (take m (cwd w) ++ [manifest_name]) = None.
Proof.
  rewrite find_project_root_run in *.
  destruct (project_root w) as [d'|] eqn:Hroot; [|done].
  simpl in Hret. injection Hret as ->. split; [done|].
  destruct (first_with_manifest_Some _ _ _ Hroot) as [Hin Hsome].
  destruct (first_with_manifest_first _ _ _ Hroot) as [i [Hi Hbefore]].
  assert (i ≤ length (cwd w)) as Hle.
  { apply lookup_lt_Some in Hi. simpl in Hi. unfold parents in Hi.
    rewrite length_fmap, length_reverse, length_seq in Hi. lia. }
  rewrite candidates_lookup in Hi by done. injection Hi as <-.
  exists (length (cwd w) - i). split; [lia|]. split; [done|]. split; [done|].
  intros m Hm Hml.
  apply (Hbefore (length (cwd w) - m)); [lia|].
  rewrite candidates_lookup by lia. do 2 f_equal. lia.
Qed.

Lemma find_project_root_nearest_witness :
  ∃ n, n ≤ length (cwd (demo_world plain_text))
       ∧ demo_dir = take n (cwd (demo_world plain_text))
       ∧ is_Some (fs (demo_world plain_text) !! (demo_dir ++ [manifest_name]))
       ∧ ∀ m, n < m → m ≤ length (cwd (demo_world plain_text)) →
           fs (demo_world plain_text)
             !! (take m (cwd (demo_world plain_text)) ++ [manifest_name])
           = None.
Proof.
  refine (proj2 (find_project_root_nearest (demo_world plain_text) demo_dir _)).
  vm_compute. reflexivity.
Defined.

Lemma snoc_ne {A} (l : list A) (x : A) : l ≠ l ++ [x].
Proof.
  intros Heq. apply (f_equal length) in Heq.
  rewrite length_app in Heq. simpl in Heq. lia.
Qed.

(** X2. The search for the project root ends the run, with its message
    printed and [SystemExit(1)] raised, exactly when neither the working
    directory nor any of its ancestors holds a [pyproject.toml]. *)
Theorem find_project_root_fails (w : World) :
  (∀ n, n ≤ length (cwd w) →
     fs w !! (take n (cwd w) ++ [manifest_name]) = None)
  ↔ _find_project_root w
    = (printed w [no_manifest_message], Raise (SystemExit 1)).
Proof.
  rewrite find_project_root_run. split.
  - intros Hnone.
    assert (project_root w = None) as ->; [|done].
    apply first_with_manifest_None. intros d [n [Hn ->]]%elem_of_candidates.
    by apply Hnone.
  - destruct (project_root w) as [d|] eqn:Hroot; [done|].
    intros _ n Hn.
    apply (proj1 (first_with_manifest_None _ _) Hroot).
    apply elem_of_candidates. eauto.
Qed.

(** X3. After the search for the project root has returned a directory,
    the manifest exists in it: the check [if not pyproject_path.exists()]
    that [main] makes next never finds the file missing. *)
Theorem root_check_never_fails (w : World) :
  snd (bind _find_project_root
         (λ project_root, path_exists (project_root ++ [manifest_name])) w)
  ≠ Ok false.
Proof.
  unfold bind. rewrite find_project_root_run.
  destruct (project_root w) as [d|] eqn:Hroot; [|done].
  destruct (first_with_manifest_Some _ _ _ Hroot) as [_ Hsome].
  unfold path_exists. simpl. by rewrite bool_decide_true.
Qed.

(** ** The extracted names *)

Lemma size_list_to_set_le (l : list str) :
  size (list_to_set l : gset str) ≤ length l.
Proof.
  induction l as [|x l IH].
  - vm_compute. lia.
  - cbn [list_to_set length]. rewrite size_union_alt, size_singleton.
    assert (size (list_to_set l ∖ {[x]} : gset str)
            ≤ size (list_to_set l : gset str)) by (apply subseteq_size; set_solver).
    lia.
Qed.

Lemma bare_name_stripped (dep : str) : strip (bare_name dep) = bare_name dep.
Proof. apply strip_strip. Qed.

(** X4. Every name the extraction returns is a usable name: it is not
    empty, holds none of the characters at which declarations are cut
    (opening bracket, [<], [>], [=], [!], [~], space) and has no white
    space at either end; and there are at most as many names as
    declarations. *)
Theorem names_well_formed (deps : list str) :
  ∃ names : gset str,
    dependency_names deps = Ok names
    ∧ size names ≤ length deps
    ∧ ∀ n, n ∈ names →
        n ≠ [] ∧ Forall (λ c, is_sep c = false) n ∧ strip n = n.
Proof.
  eexists. split; [apply dependency_names_ok|]. split.
  - etrans; [apply size_list_to_set_le|].
    etrans; [apply length_filter|]. by rewrite length_fmap.
  - intros n [Hn [dep [_ ->]]]%elem_of_names.
    split; [done|]. split; [apply bare_name_free|apply bare_name_stripped].
Qed.

Lemma before_stop_head (p : char → bool) (c : char) (rest : str) :
  p c = true → before p (c :: rest) = [].
Proof. intros Hc. simpl. by rewrite Hc. Qed.

(** X5. A declaration that starts with a space, a version operator or an
    opening bracket contributes no name: the text before the first cut
    character is empty, and the empty name is dropped. *)
Theorem leading_separator_gives_no_name
    (c : char) (rest : str) (deps : list str)
    (Hc : is_sep c = true) :
  dep_name (c :: rest) = Ok []
  ∧ dependency_names ((c :: rest) :: deps) = dependency_names deps.
Proof.
  assert (bare_name (c :: rest) = []) as Hname.
  { unfold bare_name. by rewrite before_stop_head. }
  split; [by rewrite dep_name_ok, Hname|].
  rewrite !dependency_names_ok. do 2 f_equal. simpl.
  rewrite filter_cons, Hname. by case_decide.
Qed.

Lemma leading_separator_gives_no_name_witness :
  dep_name (u " fastapi==0.120.2") = Ok []
  ∧ dependency_names [u " fastapi==0.120.2"; u "uvicorn"]
    = dependency_names [u "uvicorn"].
Proof.
  apply (leading_separator_gives_no_name 32%N (u "fastapi==0.120.2")
           [u "uvicorn"]).
  vm_compute. reflexivity.
Defined.

Lemma before_app_stop (p : char → bool) (a : str) (c : char) (b : str) :
  Forall (λ x, p x = false) a → p c = true → before p (a ++ c :: b) = a.
Proof.
  intros Ha Hc. induction Ha as [|x a Hx _ IH]; simpl.
  - by rewrite Hc.
  - by rewrite Hx, IH.
Qed.

Lemma bare_name_pin (dep version : str) :
  bare_name (bare_name dep ++ u "==" ++ version) = bare_name dep.
Proof.
  unfold bare_name at 1.
  change (u "==" ++ version) with (61%N :: 61%N :: version).
  rewrite before_app_stop; [apply bare_name_stripped|apply bare_name_free|].
  vm_compute. reflexivity.
Qed.

Lemma bare_name_rewritten (new_versions : gmap str str) (dep : str) :
  bare_name (rewritten new_versions dep) = bare_name dep.
Proof.
  unfold rewritten. destruct (new_versions !! bare_name dep); [|done].
  apply bare_name_pin.
Qed.

Lemma rewritten_rewritten (new_versions : gmap str str) (dep : str) :
  rewritten new_versions (rewritten new_versions dep)
  = rewritten new_versions dep.
Proof.
  unfold rewritten at 1. rewrite bare_name_rewritten.
  unfold rewritten. by destruct (new_versions !! bare_name dep).
Qed.

(** X6. Rebuilding the declarations keeps their names and is stable: each
    rebuilt entry has the stripped name of the declaration it comes from,
    so the rebuilt list has the same set of direct dependencies, and
    rebuilding it once more with the same update map changes nothing. *)
Theorem update_deps_stable (new_versions : gmap str str) (deps : list str) :
  ∃ updated_deps,
    update_deps new_versions deps = Ok updated_deps
    ∧ (∀ i dep new_dep,
         deps !! i = Some dep → updated_deps !! i = Some new_dep →
         dep_name new_dep = dep_name dep)
    ∧ dependency_names updated_deps = dependency_names deps
    ∧ update_deps new_versions updated_deps = Ok updated_deps.
Proof.
  exists (rewritten new_versions <$> deps).
  split; [apply update_deps_ok|].
  assert (bare_name <$> (rewritten new_versions <$> deps) = bare_name <$> deps)
    as Hnames.
  { rewrite <- list_fmap_compose. apply list_fmap_ext.
    intros i dep _. apply bare_name_rewritten. }
  split; [|split].
  - intros i dep new_dep Hdep. rewrite list_lookup_fmap, Hdep.
    intros [= <-]. by rewrite !dep_name_ok, bare_name_rewritten.
  - rewrite !dependency_names_ok. by rewrite Hnames.
  - rewrite update_deps_ok. f_equal. rewrite <- list_fmap_compose.
    apply list_fmap_ext. intros i dep _. apply rewritten_rewritten.
Qed.

(** ** The update map built by [main] *)

Lemma versions_of_snoc (l : list Pkg) (pkg : Pkg) (m : gmap str str) :
  versions_of (l ++ [pkg]) m
  = <[pkg_name pkg := pkg_latest_version pkg]> (versions_of l m).
Proof. unfold versions_of. by rewrite foldl_snoc. Qed.

Lemma versions_of_lookup (to_update : list Pkg) (n : str) :
  versions_of to_update ∅ !! n
  = pkg_latest_version
      <$> last (filter (λ pkg, pkg_name pkg = n) to_update).
Proof.
  induction to_update as [|pkg l IH] using rev_ind; [done|].
  rewrite versions_of_snoc, filter_app, filter_cons, filter_nil.
  case_decide as Hn.
  - subst n. by rewrite lookup_insert_eq, last_snoc.
  - rewrite lookup_insert_ne by done. by rewrite app_nil_r.
Qed.

(** X7. The update map built from the packages to update holds, for each
    name, the latest version of the last entry of the listing with that
    name (a later entry overrides an earlier one), and nothing for a name
    that is not listed; one line is printed per entry, in order, and no
    file is touched. *)
Theorem collect_versions_last_wins (to_update : list Pkg) (w : World) :
  ∃ new_versions : gmap str str,
    collect_versions to_update ∅ w
    = (printed w (update_line <$> to_update), Ok new_versions)
    ∧ ∀ n, new_versions !! n
           = pkg_latest_version
               <$> last (filter (λ pkg, pkg_name pkg = n) to_update).
Proof.
  exists (versions_of to_update ∅). split.
  - apply collect_versions_run.
  - apply versions_of_lookup.
Qed.

(** ** The runs of [main], case by case *)



(** X9. With the manifest found, an exception of [tomllib] ends [main]
    with that exception before anything is printed; an exception of the
    listing command ends it with that exception after the line naming the
    direct dependencies; in both cases no file is changed.  When the
    manifest declares no name, [main] returns normally without consulting
    the listing. *)
Theorem main_propagates_library_errors
    (env : Env) (w : World) (d : path) (text : str)
    (Hroot : project_root w = Some d)
    (Htext : fs w !! (d ++ [manifest_name]) = Some text) :
  (∀ err, toml_dependencies env text = Raise err →
     main env w = (w, Raise err))
  ∧ (∀ deps err,
       toml_dependencies env text = Ok deps → names_of deps ≠ ∅ →
       uv_pip_list_outdated env = Raise err →
       main env w
       = (printed w [direct_deps_line (names_of deps)], Raise err))
  ∧ (∀ deps,
       toml_dependencies env text = Ok deps → names_of deps = ∅ →
       main env w = (printed w [no_deps_message], Ok tt)).
Proof.
  split; [|split].
  - intros err Herr. by eapply main_parse_error.
  - intros deps err Hdeps Hnames Huv. by eapply main_uv_error.
  - intros deps Hdeps Hnames. by eapply main_no_deps.
Qed.

Lemma main_propagates_library_errors_witness :
  let env := mkEnv (λ _, Ok plain_deps) (Raise CalledProcessError) in
  main env (demo_world plain_text)
  = (printed (demo_world plain_text)
       [direct_deps_line (names_of plain_deps)],
     Raise CalledProcessError).
Proof.
  intros env.
  refine (proj1 (proj2 (main_propagates_library_errors env
                          (demo_world plain_text) demo_dir plain_text _ _))
            plain_deps CalledProcessError _ _ _).
  - vm_compute. reflexivity.
  - vm_compute. reflexivity.
  - reflexivity.
  - vm_compute. discriminate.
  - reflexivity.
Defined.

Lemma filter_name_direct (names : gset str) (outdated : list Pkg) (n : str) :
  n ∈ names →
  filter (λ pkg, pkg_name pkg = n) (filter (λ pkg, pkg_name pkg ∈ names) outdated)
  = filter (λ pkg, pkg_name pkg = n) outdated.
Proof. intros Hn. apply list_filter_filter_l. by intros pkg ->. Qed.

Lemma filter_name_not_direct (names : gset str) (outdated : list Pkg) (n : str) :
  n ∉ names →
  filter (λ pkg, pkg_name pkg = n) (filter (λ pkg, pkg_name pkg ∈ names) outdated)
  = [].
Proof.
  intros Hn. rewrite list_filter_filter.
  induction outdated as [|pkg l IH]; [done|].
  rewrite filter_cons. case_decide as Hpkg; [|done].
  destruct Hpkg as [<- Hin]. done.
Qed.

Lemma rewritten_pinned (deps : list str) (outdated : list Pkg) (dep : str) :
  dep ∈ deps →
  rewritten
    (versions_of (filter (λ pkg, pkg_name pkg ∈ names_of deps) outdated) ∅) dep
  = pinned outdated dep.
Proof.
  intros Hdep. unfold rewritten, pinned. rewrite versions_of_lookup.
  case_bool_decide as Hempty.
  - rewrite filter_name_not_direct; [done|].
    rewrite Hempty. intros [? _]%elem_of_names. done.
  - rewrite filter_name_direct by (apply elem_of_names; eauto).
    by destruct (last _).
Qed.



(** ** The pattern and the block the rewrite writes *)

Lemma find_char_notin (c : char) (a b : str) :
  c ∉ a → find [c] (a ++ c :: b) = Some (length a).
Proof.
  induction a as [|x a IH]; intros Hc; simpl.
  - by rewrite N.eqb_refl.
  - apply not_elem_of_cons in Hc as [Hx Ha].
    rewrite (proj2 (N.eqb_neq c x)) by done. simpl. by rewrite IH.
Qed.

Lemma find_char_first (c : char) (a b : str) :
  find [c] (a ++ c :: b) = Some (length a) → c ∉ a.
Proof.
  induction a as [|x a IH]; simpl; [intros _; apply not_elem_of_nil|].
  destruct (N.eqb_spec c x) as [->|Hx]; simpl; [done|].
  destruct (find [c] (a ++ c :: b)) as [j|] eqn:Hj; simpl; [|done].
  intros [= ->]. apply not_elem_of_cons. split; [done|]. by apply IH.
Qed.

Lemma match_here_exact (w1 w2 body rest : str) :
  spaces w1 → spaces w2 →
  match_here (keyword ++ w1 ++ c_eq :: w2 ++ c_lbracket :: body
              ++ c_rbracket :: rest)
  = (λ j, length (keyword ++ w1 ++ c_eq :: w2 ++ [c_lbracket]) + j + 1)
      <$> find [c_rbracket] (body ++ c_rbracket :: rest).
Proof.
  intros Hs1 Hs2. unfold match_here.
  rewrite startswith_app, drop_app_length.
  rewrite lstrip_app by done. simpl.
  rewrite lstrip_app by done. simpl.
  destruct (find [c_rbracket] (body ++ c_rbracket :: rest)); simpl; [|done].
  f_equal. list_len.
Qed.

Lemma search_from_here (i : nat) (t : str) (n : nat) :
  match_here t = Some n → search_from i t = Some (i, i + n).
Proof.
  intros Hn. destruct t as [|c t]; [by vm_compute in Hn|].
  cbn [search_from]. by rewrite Hn.
Qed.

Lemma join_lines (a : str) (l : list str) (b : str) :
  join newline (a :: l ++ [b])
  = a ++ newline ++ concat ((λ x, x ++ newline) <$> l) ++ b.
Proof.
  revert a. induction l as [|x l IH]; intros a; [done|].
  change (join newline (a :: (x :: l) ++ [b]))
    with (a ++ newline ++ join newline (x :: l ++ [b])).
  rewrite IH. simpl. by rewrite <- !app_assoc.
Qed.

(** The text between the brackets of the block written for [l]. *)
Lemma new_block_shape (l : list str) :
  new_block l
  = keyword ++ [32%N] ++ c_eq :: [32%N] ++ c_lbracket
      :: (newline ++ concat ((λ d, dep_line d ++ newline) <$> l))
      ++ [c_rbracket].
Proof.
  unfold new_block.
  change ([u "dependencies = ["] ++ (dep_line <$> l) ++ [u "]"])
    with (u "dependencies = [" :: (dep_line <$> l) ++ [u "]"]).
  rewrite join_lines, <- list_fmap_compose.
  change (u "dependencies = [") with (keyword ++ [32; 61; 32; 91]%N).
  change (u "]") with [c_rbracket].
  by rewrite <- !app_assoc.
Qed.

Lemma rbracket_in_line (d : str) :
  c_rbracket ∈ dep_line d ++ newline ↔ c_rbracket ∈ d.
Proof.
  unfold dep_line.
  change (u "    ") with [32; 32; 32; 32]%N. change (u ",") with [44%N].
  rewrite !elem_of_app. unfold dquote, newline, c_rbracket.
  rewrite !elem_of_cons, !elem_of_nil. intuition congruence.
Qed.

Lemma rbracket_in_lines (l : list str) :
  c_rbracket ∈ concat ((λ d, dep_line d ++ newline) <$> l)
  ↔ Exists (λ d, c_rbracket ∈ d) l.
Proof.
  induction l as [|d l IH].
  - rewrite Exists_nil. apply elem_of_nil.
  - rewrite fmap_cons. cbn [concat].
    by rewrite Exists_cons, <- IH, elem_of_app, rbracket_in_line.
Qed.

(** X11. The block the rewrite writes is found again by the rewrite's own
    pattern from its first character on; the span found is the whole
    block exactly when no entry holds a closing bracket, and stops short
    of the end of the block otherwise. *)
Theorem written_block_found_whole (l : list str) :
  (∃ e, pattern_search (new_block l) = Some (0, e)
        ∧ e ≤ length (new_block l))
  ∧ (pattern_search (new_block l) = Some (0, length (new_block l))
     ↔ Forall (λ d, c_rbracket ∉ d) l).
Proof.
  set (body := newline ++ concat ((λ d, dep_line d ++ newline) <$> l)).
  pose proof (match_here_exact [32%N] [32%N] body []
                ltac:(by repeat constructor) ltac:(by repeat constructor))
    as Hhere.
  assert (new_block l
          = keyword ++ [32%N] ++ c_eq :: [32%N] ++ c_lbracket :: body
            ++ [c_rbracket]) as Hshape by apply new_block_shape.
  rewrite <- Hshape in Hhere.
  assert (length (new_block l)
          = length (keyword ++ [32%N] ++ c_eq :: [32%N] ++ [c_lbracket])
            + length body + 1) as Hlen.
  { rewrite Hshape. list_len. }
  assert (c_rbracket ∉ body ↔ Forall (λ d, c_rbracket ∉ d) l) as Hbody.
  { unfold body. rewrite not_elem_of_app, rbracket_in_lines.
    rewrite <- Forall_Exists_neg. unfold newline, c_rbracket.
    rewrite not_elem_of_cons, elem_of_nil. intuition congruence. }
  clearbody body.
  destruct (find_char_app c_rbracket body []) as [j [Hj Hle]].
  rewrite Hj in Hhere. simpl in Hhere.
  pose proof (search_from_here 0 _ _ Hhere) as Hfound.
  fold (pattern_search (new_block l)) in Hfound.
  rewrite Hfound, Hlen. simpl. split.
  - eexists. split; [done|]. lia.
  - rewrite <- Hbody. split.
    + intros [= Hj']. apply (find_char_first _ _ []).
      rewrite Hj. f_equal. lia.
    + intros Hnotin. rewrite (find_char_notin _ _ [] Hnotin) in Hj.
      injection Hj as <-. do 2 f_equal; lia.
Qed.

(** X12. With the manifest read, the rewrite ends the run, its message
    printed, [SystemExit(1)] raised and no file touched, exactly when no
    part of the manifest text, as text mode delivers it, is matched by the
    pattern; what [tomllib] would make of the text plays no part in
    it. *)
Theorem rewrite_exits_iff_no_match
    (env : Env) (p : path) (new_versions : gmap str str) (w : World)
    (raw : str)
    (Hfile : fs w !! p = Some raw) :
  (∀ s e, s ≤ e → e ≤ length (universal_newlines raw) →
     ¬ in_pattern (slice s e (universal_newlines raw)))
  ↔ _update_pyproject_dependencies_block env p new_versions w
    = (printed w [no_block_message], Raise (SystemExit 1)).
Proof.
  rewrite (update_block_run _ _ _ _ _ Hfile).
  destruct (pattern_search (universal_newlines raw)) as [[s e]|] eqn:Hsearch.
  - destruct (pattern_search_Some _ _ _ Hsearch) as (Hse & He & Hin & _).
    split.
    + intros Hnone. by destruct (Hnone s e Hse He).
    + destruct (toml_dependencies env (universal_newlines raw)); [done|].
      intros [= Hw _]. apply (f_equal stdout) in Hw. by apply snoc_ne in Hw.
  - split; [done|]. intros _. by apply pattern_search_None.
Qed.

Lemma rewrite_exits_iff_no_match_witness :
  (∀ s e, s ≤ e → e ≤ length (universal_newlines bare_text) →
     ¬ in_pattern (slice s e (universal_newlines bare_text)))
  ↔ _update_pyproject_dependencies_block (demo_env [] []) demo_manifest ∅
      (demo_world bare_text)
    = (printed (demo_world bare_text) [no_block_message],
       Raise (SystemExit 1)).
Proof.
  apply (rewrite_exits_iff_no_match (demo_env [] []) demo_manifest ∅
           (demo_world bare_text) bare_text).
  vm_compute. reflexivity.
Defined.

(** X13. The search pays no attention to where in the manifest a match
    lies: whenever some part of the text is matched by the pattern, be it
    the tail of a longer key or a key of another table, the search
    succeeds, and the span it returns starts no later than that part and,
    when it starts with it, ends no later. *)
Theorem pattern_search_finds_any (pre m post : str)
    (Hm : in_pattern m) :
  ∃ s e, pattern_search (pre ++ m ++ post) = Some (s, e)
         ∧ in_pattern (slice s e (pre ++ m ++ post))
         ∧ (s < length pre ∨ (s = length pre ∧ e ≤ length pre + length m)).
Proof.
  assert (slice (length pre) (length pre + length m) (pre ++ m ++ post) = m)
    as Hslice.
  { unfold slice. rewrite drop_app_length.
    replace (length pre + length m - length pre) with (length m) by lia.
    by rewrite take_app_length. }
  destruct (pattern_search (pre ++ m ++ post)) as [[s e]|] eqn:Hsearch.
  - destruct (pattern_search_Some _ _ _ Hsearch) as (_ & _ & Hin & Hleft).
    exists s, e. split; [done|]. split; [done|].
    destruct (Hleft (length pre) (length pre + length m)) as [?|[? ?]];
      [lia|list_len|by rewrite Hslice|by left|by right].
  - exfalso.
    apply (pattern_search_None _ Hsearch (length pre) (length pre + length m));
      [lia|list_len|by rewrite Hslice].
Qed.

Lemma pattern_search_finds_any_witness :
  ∃ s e,
    pattern_search (u "[project.optional-" ++ u "dependencies = []" ++ u "
dependencies = ['fastapi']
") = Some (s, e)
    ∧ in_pattern (slice s e (u "[project.optional-" ++ u "dependencies = []"
                             ++ u "
dependencies = ['fastapi']
"))
    ∧ (s < length (u "[project.optional-")
       ∨ (s = length (u "[project.optional-")
          ∧ e ≤ length (u "[project.optional-")
                + length (u "dependencies = []"))).
Proof.
  apply pattern_search_finds_any.
  exists [32%N], [32%N], []. split; [vm_compute; reflexivity|].
  split; by repeat constructor.
Defined.

(** ** What [main] reports *)







(** X15. The two places that strip a declaration agree: every package for
    which [main] announces an update is the name of at least one
    declaration of the manifest, and that declaration is written as
    [name==latest], with the latest version of the last entry listed under
    that name. *)
Theorem announced_updates_are_written
    (deps : list str) (outdated : list Pkg) (pkg : Pkg)
    (Hpkg : pkg ∈ filter (λ pkg, pkg_name pkg ∈ names_of deps) outdated) :
  ∃ dep last_pkg,
    dep ∈ deps
    ∧ dep_name dep = Ok (pkg_name pkg)
    ∧ last (filter (λ pkg', pkg_name pkg' = pkg_name pkg) outdated)
      = Some last_pkg
    ∧ rewritten
        (versions_of
           (filter (λ pkg, pkg_name pkg ∈ names_of deps) outdated) ∅) dep
      = pkg_name pkg ++ u "==" ++ pkg_latest_version last_pkg.
Proof.
  apply list_elem_of_filter in Hpkg as [Hname Hin].
  apply elem_of_names in Hname as [Hne [dep [Hdep Hname]]].
  assert (is_Some (last (filter (λ pkg', pkg_name pkg' = pkg_name pkg)
                           outdated))) as [last_pkg Hlast].
  { apply last_is_Some. intros Hnil.
    by apply (filter_nil_not_elem_of _ _ pkg Hnil eq_refl). }
  exists dep, last_pkg. split; [done|]. split; [by rewrite dep_name_ok, Hname|].
  split; [done|].
  rewrite (rewritten_pinned deps outdated dep Hdep). unfold pinned.
  rewrite <- Hname, bool_decide_false by done. by rewrite Hlast.
Qed.

Lemma announced_updates_are_written_witness :
  ∃ dep last_pkg,
    dep ∈ plain_deps
    ∧ dep_name dep = Ok (u "fastapi")
    ∧ last (filter (λ pkg', pkg_name pkg' = u "fastapi") fastapi_outdated)
      = Some last_pkg
    ∧ rewritten
        (versions_of
           (filter (λ pkg, pkg_name pkg ∈ names_of plain_deps)
              fastapi_outdated) ∅) dep
      = u "fastapi" ++ u "==" ++ pkg_latest_version last_pkg.
Proof.
  apply (announced_updates_are_written plain_deps fastapi_outdated
           (mkPkg (u "fastapi") (u "0.1") (u "0.2"))).
  vm_compute. left.
Defined.
